(** * Five ways to configure a Go [Client]

    A shallow embedding of the example packages of the repository
    (traditional constructor, multiple constructors, config struct,
    setter functions, functional options) and the properties of the
    functional-options builder stated in the specification. *)

From stdpp Require Import gmap strings list fin_maps.

(** ** Go values *)

(** [map[string]string]: the nil map, or a map with its entries.  No
    function of the repository writes to a map after it was built, so a
    map is represented by its contents. *)
Definition map_string_string : Type := option (gmap string string).

(** [map[string]string{}]: the empty, non-nil map. *)
Definition empty_map : map_string_string := Some ∅.

(** [type ILogger interface{}]: the nil interface, or any value [v : V]. *)
Definition ILogger (V : Type) : Type := option V.

(** Addresses of heap-allocated [http.Client] values; a [*http.Client]
    is nil ([None]) or an address. *)
Definition addr : Type := positive.

(** [http.Client] is net/http's.  The examples build its zero value
    [http.Client{}] and never read or write a field of it, so the zero
    value is the only one there is. *)
Variant http_Client : Type := http_Client_zero.

(** The heap, as far as the examples use it: the allocated [http.Client]s. *)
Abbreviation store := (gmap addr http_Client).

(** ** Calls

    A call runs in a store and either returns a value and the new store,
    or panics. *)
Inductive outcome (A : Type) : Type :=
| Returned (a : A) (σ : store)
| Panicked.
Arguments Returned {A} a σ.
Arguments Panicked {A}.

Definition M (A : Type) : Type := store → outcome A.

#[global] Instance M_ret : MRet M := λ A a σ, Returned a σ.

#[global] Instance M_bind : MBind M := λ A B f m σ,
  match m σ with
  | Returned a σ' => f a σ'
  | Panicked => Panicked
  end.

(** The address the next allocation gets: one that is not in use. *)
Definition fresh_addr (σ : store) : addr := fresh (dom σ).

(** [&http.Client{}]: a zero [http.Client] at an address not in use. *)
Definition new_http_Client : M addr := λ σ,
  let a := fresh_addr σ in Returned a (<[a := http_Client_zero]> σ).

(** Reading a field through a nil pointer. *)
Definition nil_dereference {A : Type} : M A := λ _, Panicked.

(** ** The client

    Every example package declares the same struct.  A constructor
    returns the pointer to a client it has just allocated and that
    nothing else refers to; here it returns the struct behind that
    pointer, so a returned client is never nil. *)
Record Client (V : Type) : Type := mkClient {
  baseURL : string;
  header : map_string_string;
  logger : ILogger V;
  baseClient : option addr
}.
Arguments mkClient {V} _ _ _ _.
Arguments baseURL {V} _.
Arguments header {V} _.
Arguments logger {V} _.
Arguments baseClient {V} _.

(** ** example/traditional_constructor *)
Module Traditional.

Definition New {V : Type} (baseURL : string) (header : map_string_string)
    (logger : ILogger V) : M (Client V) :=
  bc ← new_http_Client;
  mret {| baseURL := baseURL; header := header; logger := logger;
          baseClient := Some bc |}.

End Traditional.

(** ** example/multiple_constructors *)
Module MultipleConstructors.

Definition New {V : Type} (baseURL : string) : M (Client V) :=
  bc ← new_http_Client;
  mret {| baseURL := baseURL; header := empty_map; logger := None;
          baseClient := Some bc |}.

Definition NewWithBaseURLAndHeaders {V : Type} (baseURL : string)
    (header : map_string_string) : M (Client V) :=
  bc ← new_http_Client;
  mret {| baseURL := baseURL; header := header; logger := None;
          baseClient := Some bc |}.

Definition NewWithBaseURLHeadersAndLogger {V : Type} (baseURL : string)
    (header : map_string_string) (logger : ILogger V) : M (Client V) :=
  bc ← new_http_Client;
  mret {| baseURL := baseURL; header := header; logger := logger;
          baseClient := Some bc |}.

End MultipleConstructors.

(** ** example/config_struct *)
Module ConfigStruct.

Record Config (V : Type) : Type := mkConfig {
  BaseURL : string;
  Header : map_string_string;
  Logger : ILogger V
}.
Arguments mkConfig {V} _ _ _.
Arguments BaseURL {V} _.
Arguments Header {V} _.
Arguments Logger {V} _.

(** [config] is a [*Config]: [None] is nil, and reading [config.BaseURL]
    through it panics before anything is allocated. *)
Definition NewWithConfig {V : Type} (config : option (Config V)) : M (Client V) :=
  match config with
  | None => nil_dereference
  | Some config =>
      bc ← new_http_Client;
      mret {| baseURL := BaseURL config; header := Header config;
              logger := Logger config; baseClient := Some bc |}
  end.

End ConfigStruct.

(** ** The setter-function example *)
Module SetterPattern.

Definition New {V : Type} (baseURL : string) : M (Client V) :=
  bc ← new_http_Client;
  mret {| baseURL := baseURL; header := empty_map; logger := None;
          baseClient := Some bc |}.

(** The methods assign through their receiver and return it; the
    receiver's struct is passed in and the updated struct comes out. *)
Definition SetHeader {V : Type} (c : Client V) (header : map_string_string) : Client V :=
  {| baseURL := baseURL c; header := header; logger := logger c;
     baseClient := baseClient c |}.

Definition SetLogger {V : Type} (c : Client V) (logger : ILogger V) : Client V :=
  {| baseURL := baseURL c; header := header c; logger := logger;
     baseClient := baseClient c |}.

End SetterPattern.

(** ** example/functional_options_pattern *)
Module FunctionalOptions.

(** [type Option func(c *Client)], for the options that return and touch
    nothing but the client New hands them, as every option the package
    makes does: such an option is the change it makes to that client.
    [OptionFuncs] below has the func values in full, and its New agrees
    with this one on these options. *)
Definition Option (V : Type) : Type := Client V → Client V.

(** [for _, opt := range opts { opt(client) }] *)
Fixpoint range_opts {V : Type} (opts : list (Option V)) (client : Client V) : Client V :=
  match opts with
  | [] => client
  | opt :: opts => range_opts opts (opt client)
  end.

Definition New {V : Type} (baseURL : string) (opts : list (Option V)) : M (Client V) :=
  bc ← new_http_Client;
  let client := {| baseURL := baseURL; header := empty_map; logger := None;
                   baseClient := Some bc |} in
  mret (range_opts opts client).

Definition WithHeader {V : Type} (header : map_string_string) : Option V :=
  λ c, {| baseURL := baseURL c; header := header; logger := logger c;
          baseClient := baseClient c |}.

Definition WithLogger {V : Type} (logger : ILogger V) : Option V :=
  λ c, {| baseURL := baseURL c; header := header c; logger := logger;
          baseClient := baseClient c |}.

End FunctionalOptions.

(** ** example/functional_options_pattern, with every func value *)
Module OptionFuncs.

(** [type Option func(c *Client)] in full.  A func value is nil, or a
    function that, called with the pointer to the client, runs in the
    store and either returns, leaving the client and the store as it
    changed them, or panics.  It has no result: a panic is the one way
    it has to make New fail. *)
Definition Option (V : Type) : Type := option (Client V → M (Client V)).

(** [opt(client)].  Calling a nil func panics. *)
Definition call {V : Type} (opt : Option V) (client : Client V) : M (Client V) :=
  match opt with
  | None => nil_dereference
  | Some f => f client
  end.

(** [for _, opt := range opts { opt(client) }] *)
Fixpoint range_opts {V : Type} (opts : list (Option V)) (client : Client V)
    : M (Client V) :=
  match opts with
  | [] => mret client
  | opt :: opts => client ← call opt client; range_opts opts client
  end.

Definition New {V : Type} (baseURL : string) (opts : list (Option V)) : M (Client V) :=
  bc ← new_http_Client;
  let client := {| baseURL := baseURL; header := empty_map; logger := None;
                   baseClient := Some bc |} in
  range_opts opts client.

(** The func value of an option that is a change to the client. *)
Definition of_change {V : Type} (o : FunctionalOptions.Option V) : Option V :=
  Some (λ c, mret (o c)).

Definition WithHeader {V : Type} (header : map_string_string) : Option V :=
  of_change (FunctionalOptions.WithHeader header).

Definition WithLogger {V : Type} (logger : ILogger V) : Option V :=
  of_change (FunctionalOptions.WithLogger logger).

End OptionFuncs.

(** An option that, when it returns, has left the store as it was. *)
Definition store_preserving {V : Type} (o : OptionFuncs.Option V) : Prop :=
  ∀ c σ c' σ', OptionFuncs.call o c σ = Returned c' σ' → σ' = σ.

(** ** Classes of options the specification speaks of *)

(** Options made by one of the two named factories. *)
Inductive factory_made {V : Type} : FunctionalOptions.Option V → Prop :=
| made_WithHeader h : factory_made (FunctionalOptions.WithHeader h)
| made_WithLogger l : factory_made (FunctionalOptions.WithLogger l).

(** Assignment of a value to one field of a client. *)
Inductive field_assignment (V : Type) : Type :=
| assign_baseURL (v : string)
| assign_header (v : map_string_string)
| assign_logger (v : ILogger V)
| assign_baseClient (v : option addr).
Arguments assign_baseURL {V} v.
Arguments assign_header {V} v.
Arguments assign_logger {V} v.
Arguments assign_baseClient {V} v.

Definition assign {V : Type} (f : field_assignment V) (c : Client V) : Client V :=
  match f with
  | assign_baseURL v => mkClient v (header c) (logger c) (baseClient c)
  | assign_header v => mkClient (baseURL c) v (logger c) (baseClient c)
  | assign_logger v => mkClient (baseURL c) (header c) v (baseClient c)
  | assign_baseClient v => mkClient (baseURL c) (header c) (logger c) v
  end.

(** An option whose effect is a pure assignment: on every client it does
    what assigning one captured value to one field does. *)
Definition pure_assignment {V : Type} (o : FunctionalOptions.Option V) : Prop :=
  ∃ f : field_assignment V, ∀ c, o c = assign f c.


(** The target New starts from, with [bc] the address of its base client. *)
Definition default_target {V : Type} (baseURL : string) (bc : addr) : Client V :=
  {| baseURL := baseURL; header := empty_map; logger := None;
     baseClient := Some bc |}.

(** [c] with its base client set to [v]. *)
Definition relocate {V : Type} (v : option addr) (c : Client V) : Client V :=
  assign (assign_baseClient v) c.

(** An option that neither reads nor writes the base client: moving the
    base client before or after the option is the same. *)
Definition base_client_blind {V : Type} (o : FunctionalOptions.Option V) : Prop :=
  ∀ v c, o (relocate v c) = relocate v (o c).

(** The identifier of the demonstrations. *)
Definition example_url : string := "https://api.example.com".

(** ** Sequences of settings

    What a setter call or a factory-made option carries: the field it
    writes and the value it writes there. *)
Inductive setting (V : Type) : Type :=
| header_setting (h : map_string_string)
| logger_setting (l : ILogger V).
Arguments header_setting {V} h.
Arguments logger_setting {V} l.

(** The factory-made option for a setting. *)
Definition WithSetting {V : Type} (s : setting V) : FunctionalOptions.Option V :=
  match s with
  | header_setting h => FunctionalOptions.WithHeader h
  | logger_setting l => FunctionalOptions.WithLogger l
  end.

(** The setter call for a setting: [c.SetHeader(h)] or [c.SetLogger(l)]. *)
Definition call_setter {V : Type} (c : Client V) (s : setting V) : Client V :=
  match s with
  | header_setting h => SetterPattern.SetHeader c h
  | logger_setting l => SetterPattern.SetLogger c l
  end.

Definition header_of {V : Type} (s : setting V) : option map_string_string :=
  match s with header_setting h => Some h | logger_setting _ => None end.

Definition logger_of {V : Type} (s : setting V) : option (ILogger V) :=
  match s with header_setting _ => None | logger_setting l => Some l end.

(** The header values, and the logger values, of a sequence, in order. *)
Definition headers {V : Type} (ss : list (setting V)) : list map_string_string :=
  omap header_of ss.

Definition loggers {V : Type} (ss : list (setting V)) : list (ILogger V) :=
  omap logger_of ss.

(** A call that allocates one zero [http.Client] at an unused address,
    makes it the base client of the client it returns, and leaves the
    rest of the store as it was. *)
Definition allocates_base_client {V : Type} (m : M (Client V)) : Prop :=
  ∀ σ : store, ∃ c a,
    m σ = Returned c (<[a := http_Client_zero]> σ) ∧
    σ !! a = None ∧ baseClient c = Some a.

(** ** Allocation *)

Lemma fresh_addr_unused (σ : store) : σ !! fresh_addr σ = None.
Proof. apply not_elem_of_dom. unfold fresh_addr. apply is_fresh. Qed.

Lemma new_http_Client_returns (σ : store) :
  new_http_Client σ = Returned (fresh_addr σ) (<[fresh_addr σ := http_Client_zero]> σ).
Proof. unfold new_http_Client. reflexivity. Qed.

Lemma new_http_Client_allocated (σ : store) :
  <[fresh_addr σ := http_Client_zero]> σ !! fresh_addr σ = Some http_Client_zero.
Proof. apply lookup_insert_eq. Qed.

(** What was allocated before stays as it was. *)
Lemma new_http_Client_frame (σ : store) (a : addr) (x : http_Client) :
  σ !! a = Some x → <[fresh_addr σ := http_Client_zero]> σ !! a = Some x.
Proof.
  intros Ha. rewrite lookup_insert_ne; [exact Ha|].
  intros <-. rewrite fresh_addr_unused in Ha. discriminate.
Qed.

(** ** The functional-options builder *)

Section FunctionalOptionsFacts.
Import FunctionalOptions.
Context {V : Type}.
Implicit Types (b : string) (σ : store) (c : Client V) (o : Option V)
  (opts : list (Option V)) (h : map_string_string) (l : ILogger V).

(** New allocates the base client, starts from the default target and
    runs the options over it. *)
Lemma New_returns b opts σ :
  New b opts σ =
    Returned (range_opts opts (default_target b (fresh_addr σ)))
             (<[fresh_addr σ := http_Client_zero]> σ).
Proof. unfold New, mbind, M_bind. rewrite new_http_Client_returns. reflexivity. Qed.

Lemma range_opts_app opts1 opts2 c :
  range_opts (opts1 ++ opts2) c = range_opts opts2 (range_opts opts1 c).
Proof.
  revert c. induction opts1 as [|o opts1 IH]; intros c; simpl; [reflexivity|].
  apply IH.
Qed.

(** C1: with a non-empty identifier and no options, New returns a target
    with that identifier, the empty header map and no logger. *)
Theorem New_no_options_defaults b σ :
  b ≠ "" →
  ∃ c σ', New b [] σ = Returned c σ' ∧
    baseURL c = b ∧ header c = Some ∅ ∧ logger c = None.
Proof.
  intros _. rewrite New_returns. simpl.
  eexists _, _. split; [reflexivity|]. unfold default_target, empty_map. simpl.
  repeat split.
Qed.

(** C2: of two options for the same attribute the later one wins,
    whatever the earlier one did: after any option [o1], [WithHeader h2]
    leaves the header equal to [h2] (nothing of an earlier map is kept),
    and [WithLogger l2] leaves the logger equal to [l2]; an earlier
    [WithHeader h1] or [WithLogger l1] makes no difference to the target. *)
Theorem New_last_write_wins b σ :
  b ≠ "" →
  (∀ o1 h2, ∃ c σ', New b [o1; WithHeader h2] σ = Returned c σ' ∧ header c = h2) ∧
  (∀ o1 l2, ∃ c σ', New b [o1; WithLogger l2] σ = Returned c σ' ∧ logger c = l2) ∧
  (∀ h1 h2, @New V b [WithHeader h1; WithHeader h2] σ = New b [WithHeader h2] σ) ∧
  (∀ l1 l2, New b [WithLogger l1; WithLogger l2] σ = New b [WithLogger l2] σ).
Proof.
  intros _. split; [|split; [|split]].
  - intros o1 h2. rewrite New_returns. simpl. eexists _, _. split; reflexivity.
  - intros o1 l2. rewrite New_returns. simpl. eexists _, _. split; reflexivity.
  - intros h1 h2. rewrite !New_returns. reflexivity.
  - intros l1 l2. rewrite !New_returns. reflexivity.
Qed.

(** The options of the two factories are assignments to one field. *)
Lemma WithHeader_assign h c : WithHeader h c = assign (assign_header h) c.
Proof. unfold WithHeader, assign. reflexivity. Qed.

Lemma WithLogger_assign l c : WithLogger l c = assign (assign_logger l) c.
Proof. unfold WithLogger, assign. reflexivity. Qed.

Lemma factory_made_pure_assignment o : factory_made o → pure_assignment o.
Proof.
  intros [h|l].
  - exists (assign_header h). apply WithHeader_assign.
  - exists (assign_logger l). apply WithLogger_assign.
Qed.

Lemma assign_idempotent (f : field_assignment V) c :
  assign f (assign f c) = assign f c.
Proof. destruct f; reflexivity. Qed.

(** C8: an option made by [WithHeader] sets the header to the captured
    value and changes no other field, and one made by [WithLogger] does
    the same for the logger; the identifier and the base client stay. *)
Theorem named_options_frame c h l :
  (header (WithHeader h c) = h ∧
   baseURL (WithHeader h c) = baseURL c ∧
   logger (WithHeader h c) = logger c ∧
   baseClient (WithHeader h c) = baseClient c) ∧
  (logger (WithLogger l c) = l ∧
   baseURL (WithLogger l c) = baseURL c ∧
   header (WithLogger l c) = header c ∧
   baseClient (WithLogger l c) = baseClient c).
Proof. unfold WithHeader, WithLogger. simpl. repeat split. Qed.

(** C6: running an option whose effect is a pure assignment twice gives
    the target that running it once gives, and the options made by
    [WithHeader] and [WithLogger] are such options. *)
Theorem New_option_twice b σ :
  b ≠ "" →
  (∀ o, pure_assignment o → New b [o; o] σ = New b [o] σ) ∧
  (∀ h, pure_assignment (@WithHeader V h)) ∧
  (∀ l, pure_assignment (WithLogger l)).
Proof.
  intros _. split; [|split].
  - intros o [f Hf]. rewrite !New_returns. simpl. f_equal.
    rewrite !Hf. apply assign_idempotent.
  - intros h. apply factory_made_pure_assignment. constructor.
  - intros l. apply factory_made_pure_assignment. constructor.
Qed.


(** Options of the two factories write different fields, so they commute. *)
Lemma WithHeader_WithLogger_commute h l c :
  WithLogger l (WithHeader h c) = WithHeader h (WithLogger l c).
Proof. unfold WithHeader, WithLogger. simpl. reflexivity. Qed.

(** C5: [WithHeader h] and [WithLogger l] in either order give the same
    outcome, and the target is the default target with the header that
    [WithHeader h] alone gives it and the logger that [WithLogger l]
    alone gives it. *)
Theorem New_disjoint_options_commute b h l σ :
  b ≠ "" →
  New b [WithHeader h; WithLogger l] σ = New b [WithLogger l; WithHeader h] σ ∧
  ∃ c0 σ', New b [] σ = Returned c0 σ' ∧
    New b [WithHeader h; WithLogger l] σ =
      Returned {| baseURL := baseURL c0;
                  header := header (WithHeader h c0);
                  logger := logger (WithLogger l c0);
                  baseClient := baseClient c0 |} σ'.
Proof.
  intros _. rewrite !New_returns. split.
  - unfold range_opts. rewrite WithHeader_WithLogger_commute. reflexivity.
  - eexists _, _. split; reflexivity.
Qed.

(** Factory-made options leave the identifier and the base client alone. *)
Lemma range_opts_factory_made opts c :
  Forall factory_made opts →
  baseURL (range_opts opts c) = baseURL c ∧
  baseClient (range_opts opts c) = baseClient c.
Proof.
  intros Hopts. revert c.
  induction Hopts as [|o opts Ho _ IH]; intros c; simpl; [split; reflexivity|].
  destruct (IH (o c)) as [-> ->]. destruct Ho; split; reflexivity.
Qed.

(** C9: New rejects nothing.  For every identifier, the empty string
    included, and every sequence of options made by [WithHeader] and
    [WithLogger], nil map and nil logger included, it returns (it does
    not panic) a client with that identifier whose base client is not
    nil: a zero [http.Client] at an address that was not in use before
    the call. *)
Theorem New_total b opts σ :
  Forall factory_made opts →
  ∃ c a σ', New b opts σ = Returned c σ' ∧
    baseURL c = b ∧ baseClient c = Some a ∧
    σ !! a = None ∧ σ' !! a = Some http_Client_zero.
Proof.
  intros Hopts. rewrite New_returns.
  destruct (range_opts_factory_made opts (default_target b (fresh_addr σ)) Hopts)
    as [Hurl Hbc].
  exists (range_opts opts (default_target b (fresh_addr σ))), (fresh_addr σ).
  eexists. split; [reflexivity|]. split; [exact Hurl|]. split; [exact Hbc|].
  split; [apply fresh_addr_unused | apply new_http_Client_allocated].
Qed.

(** C4, as the code has it: New does not look at the identifier.  With
    the empty string and no options it returns a target whose identifier
    is the empty string, with the empty header map, no logger and a base
    client. *)
Theorem New_empty_identifier σ :
  ∃ (c : Client V) a σ', New "" [] σ = Returned c σ' ∧
    baseURL c = "" ∧ header c = Some ∅ ∧ logger c = None ∧
    baseClient c = Some a.
Proof.
  rewrite New_returns. simpl. eexists _, _, _. split; [reflexivity|].
  unfold default_target, empty_map. simpl. repeat split.
Qed.

Lemma factory_made_base_client_blind o : factory_made o → base_client_blind o.
Proof. intros [h|l] v c; reflexivity. Qed.



End FunctionalOptionsFacts.

(** ** The construction variants side by side *)

Section ConstructionVariants.
Import FunctionalOptions.
Context {V : Type}.
Implicit Types (b : string) (σ : store) (h : map_string_string) (l : ILogger V).

Lemma Traditional_New_returns b h l σ :
  Traditional.New b h l σ =
    Returned (mkClient b h l (Some (fresh_addr σ)))
             (<[fresh_addr σ := http_Client_zero]> σ).
Proof.
  unfold Traditional.New, mbind, M_bind. rewrite new_http_Client_returns.
  reflexivity.
Qed.

Lemma NewWithConfig_returns (config : ConfigStruct.Config V) σ :
  ConfigStruct.NewWithConfig (Some config) σ =
    Returned (mkClient (ConfigStruct.BaseURL config) (ConfigStruct.Header config)
                (ConfigStruct.Logger config) (Some (fresh_addr σ)))
             (<[fresh_addr σ := http_Client_zero]> σ).
Proof.
  unfold ConfigStruct.NewWithConfig, mbind, M_bind.
  rewrite new_http_Client_returns. reflexivity.
Qed.

(** A nil config is dereferenced: the call panics. *)
Lemma NewWithConfig_nil σ : @ConfigStruct.NewWithConfig V None σ = Panicked.
Proof. unfold ConfigStruct.NewWithConfig, nil_dereference. reflexivity. Qed.

(** C10: for the same identifier, header and logger the traditional
    constructor, the config-struct constructor and the functional-options
    constructor return clients with that identifier, header and logger,
    in whatever store each of them runs. *)
Theorem construction_variants_agree b h l σ1 σ2 σ3 :
  ∃ c1 c2 c3 σ1' σ2' σ3',
    Traditional.New b h l σ1 = Returned c1 σ1' ∧
    ConfigStruct.NewWithConfig
      (Some {| ConfigStruct.BaseURL := b; ConfigStruct.Header := h;
               ConfigStruct.Logger := l |}) σ2 = Returned c2 σ2' ∧
    New b [WithHeader h; WithLogger l] σ3 = Returned c3 σ3' ∧
    (baseURL c1 = b ∧ baseURL c2 = b ∧ baseURL c3 = b) ∧
    (header c1 = h ∧ header c2 = h ∧ header c3 = h) ∧
    (logger c1 = l ∧ logger c2 = l ∧ logger c3 = l).
Proof.
  rewrite Traditional_New_returns, NewWithConfig_returns, New_returns.
  eexists _, _, _, _, _, _.
  split; [reflexivity|]. split; [reflexivity|]. split; [reflexivity|].
  simpl. repeat split.
Qed.

(** Run in the same store, the three return the very same client. *)
Lemma construction_variants_same_store b h l σ :
  Traditional.New b h l σ = New b [WithHeader h; WithLogger l] σ ∧
  ConfigStruct.NewWithConfig
    (Some {| ConfigStruct.BaseURL := b; ConfigStruct.Header := h;
             ConfigStruct.Logger := l |}) σ = New b [WithHeader h; WithLogger l] σ.
Proof.
  rewrite Traditional_New_returns, NewWithConfig_returns, New_returns.
  split; reflexivity.
Qed.

(** The widest of the multiple constructors is the traditional one, and
    the narrowest is the functional-options constructor without options. *)
Lemma multiple_constructors_agree b h l σ :
  MultipleConstructors.NewWithBaseURLHeadersAndLogger b h l σ = Traditional.New b h l σ ∧
  MultipleConstructors.NewWithBaseURLAndHeaders b h σ = @New V b [WithHeader h] σ ∧
  MultipleConstructors.New b σ = @New V b [] σ.
Proof.
  rewrite Traditional_New_returns, !New_returns.
  unfold MultipleConstructors.NewWithBaseURLHeadersAndLogger,
    MultipleConstructors.NewWithBaseURLAndHeaders, MultipleConstructors.New,
    mbind, M_bind.
  rewrite new_http_Client_returns. repeat split.
Qed.

(** Chained setters do what the two options do. *)
Lemma setters_agree b h l σ :
  (c ← SetterPattern.New b;
   mret (SetterPattern.SetLogger (SetterPattern.SetHeader c h) l)) σ =
  New b [WithHeader h; WithLogger l] σ.
Proof.
  rewrite New_returns. unfold SetterPattern.New, mbind, M_bind.
  rewrite new_http_Client_returns. reflexivity.
Qed.

End ConstructionVariants.

(** ** The scenarios of the specification, and instances *)

Import FunctionalOptions.

(** [Build("https://api.example.com", [WithHeader({"Authorization":"Bearer token"})])] *)
Example scenario_one_header :
  ∃ c σ', @New string example_url
            [WithHeader (Some {["Authorization" := "Bearer token"]})] ∅ = Returned c σ' ∧
    header c = Some {["Authorization" := "Bearer token"]} ∧ logger c = None.
Proof. rewrite New_returns. simpl. eexists _, _. repeat split. Qed.

(** [WithHeader({"A":"1"})] then [WithHeader({"B":"2"})]: the header is
    [{"B":"2"}], and "A" is not in it. *)
Example scenario_header_overwrite :
  ∃ c σ' m, @New string example_url
              [WithHeader (Some {["A" := "1"]}); WithHeader (Some {["B" := "2"]})] ∅
            = Returned c σ' ∧
    header c = Some m ∧ m = {["B" := "2"]} ∧ m !! "A" = None ∧ m !! "B" = Some "2".
Proof.
  rewrite New_returns. simpl. eexists _, _, _.
  split; [reflexivity|]. split; [reflexivity|]. split; [reflexivity|].
  split; [apply lookup_singleton_ne; discriminate | apply lookup_singleton_eq].
Qed.

Lemma New_no_options_defaults_witness :
  example_url ≠ "" ∧
  ∃ c σ', @New string example_url [] ∅ = Returned c σ' ∧
    baseURL c = example_url ∧ header c = Some ∅ ∧ logger c = None.
Proof.
  split; [discriminate|]. apply New_no_options_defaults. discriminate.
Defined.

Lemma New_last_write_wins_witness :
  example_url ≠ "" ∧
  ∃ c σ', @New string example_url
            [WithHeader (Some {["A" := "1"]}); WithHeader (Some {["B" := "2"]})] ∅
          = Returned c σ' ∧
    header c = Some {["B" := "2"]}.
Proof.
  split; [discriminate|].
  apply (New_last_write_wins (V:=string) example_url ∅); discriminate.
Defined.

Lemma New_disjoint_options_commute_witness :
  example_url ≠ "" ∧
  @New string example_url
    [WithHeader (Some {["Authorization" := "Bearer token"]}); WithLogger (Some "stderr")] ∅ =
  New example_url
    [WithLogger (Some "stderr"); WithHeader (Some {["Authorization" := "Bearer token"]})] ∅.
Proof.
  split; [discriminate|].
  apply (New_disjoint_options_commute (V:=string) example_url); discriminate.
Defined.

Lemma New_option_twice_witness :
  example_url ≠ "" ∧
  pure_assignment (@WithLogger string (Some "stderr")) ∧
  @New string example_url [WithLogger (Some "stderr"); WithLogger (Some "stderr")] ∅ =
  New example_url [WithLogger (Some "stderr")] ∅.
Proof.
  assert (example_url ≠ "") as Hne by discriminate.
  destruct (New_option_twice (V:=string) example_url ∅ Hne) as (Htwice & _ & Hlog).
  split; [exact Hne|]. split; [apply Hlog|]. apply Htwice, Hlog.
Defined.

(** The empty identifier, the nil map and the nil logger. *)
Lemma New_total_witness :
  Forall factory_made [@WithHeader string None; WithLogger None] ∧
  ∃ c a σ', New "" [@WithHeader string None; WithLogger None] ∅ = Returned c σ' ∧
    baseURL c = "" ∧ baseClient c = Some a ∧
    (∅ : store) !! a = None ∧ σ' !! a = Some http_Client_zero.
Proof.
  assert (Forall factory_made [@WithHeader string None; WithLogger None]) as Hmade.
  { repeat constructor. }
  split; [exact Hmade|]. apply New_total, Hmade.
Defined.

(** C4 does not hold of the code: with the empty identifier New returns
    a target, and its identifier is the empty string. *)
Lemma New_accepts_empty_identifier :
  ∃ c σ', @New string "" [] ∅ = Returned c σ' ∧ baseURL c = "".
Proof.
  rewrite New_returns. simpl. eexists _, _. split; reflexivity.
Qed.

(** ** Sequences of factory-made options and of setter calls *)

Section Settings.
Context {V : Type}.
Implicit Types (b : string) (σ : store) (c : Client V) (s : setting V)
  (ss : list (setting V)) (opts : list (Option V)).

Lemma default_last_cons {A : Type} (d x : A) (xs : list A) :
  default d (last (x :: xs)) = default x (last xs).
Proof. rewrite last_cons. destruct (last xs); reflexivity. Qed.

Lemma last_app_self {A : Type} (xs : list A) : last (xs ++ xs) = last xs.
Proof. rewrite last_app. destruct (last xs); reflexivity. Qed.

(** Running the options of a sequence of settings over a client. *)
Lemma range_opts_settings ss c :
  range_opts (WithSetting <$> ss) c =
    {| baseURL := baseURL c;
       header := default (header c) (last (headers ss));
       logger := default (logger c) (last (loggers ss));
       baseClient := baseClient c |}.
Proof.
  revert c. induction ss as [|s ss IH]; intros c.
  - destruct c; reflexivity.
  - rewrite fmap_cons. simpl range_opts. rewrite IH.
    destruct s as [h|l]; unfold headers, loggers; simpl omap.
    + rewrite default_last_cons. reflexivity.
    + rewrite default_last_cons. reflexivity.
Qed.

(** Every sequence of factory-made options is the sequence of options of
    some settings. *)
Lemma factory_made_settings opts :
  Forall factory_made opts → ∃ ss, opts = WithSetting <$> ss.
Proof.
  induction 1 as [|o opts Ho _ [ss ->]].
  - exists []. reflexivity.
  - destruct Ho as [h|l].
    + exists (header_setting h :: ss). reflexivity.
    + exists (logger_setting l :: ss). reflexivity.
Qed.

(** X1: what New builds from any sequence of [WithHeader] and
    [WithLogger] options.  The identifier is the one given; the header is
    the value of the last [WithHeader] of the sequence, and the empty map
    when there is none; the logger is the value of the last [WithLogger],
    and nil when there is none; the base client is the one allocated. *)
Theorem New_settings b ss σ :
  New b (WithSetting <$> ss) σ =
    Returned {| baseURL := b;
                header := default empty_map (last (headers ss));
                logger := default None (last (loggers ss));
                baseClient := Some (fresh_addr σ) |}
             (<[fresh_addr σ := http_Client_zero]> σ).
Proof. rewrite New_returns, range_opts_settings. reflexivity. Qed.

(** X2: a sequence of factory-made options run twice over builds what
    it builds run once. *)
Theorem New_options_twice b opts σ :
  Forall factory_made opts → New b (opts ++ opts) σ = New b opts σ.
Proof.
  intros [ss ->]%factory_made_settings.
  rewrite <- fmap_app, !New_returns, !range_opts_settings. f_equal.
  unfold headers, loggers. rewrite !omap_app, !last_app_self. reflexivity.
Qed.

Lemma last_Permutation_short {A : Type} (xs ys : list A) :
  xs ≡ₚ ys → length xs ≤ 1 → last xs = last ys.
Proof.
  intros Hperm Hlen. destruct xs as [|x [|x' xs]]; simpl in Hlen.
  - apply Permutation_nil_l in Hperm as <-. reflexivity.
  - apply Permutation_singleton_l in Hperm as <-. reflexivity.
  - lia.
Qed.

(** X3: when a sequence of settings has at most one header and at most
    one logger in it, the order of its options does not matter: every
    rearrangement of it builds the same client. *)
Theorem New_settings_any_order b ss1 ss2 σ :
  ss1 ≡ₚ ss2 → length (headers ss1) ≤ 1 → length (loggers ss1) ≤ 1 →
  New b (WithSetting <$> ss1) σ = New b (WithSetting <$> ss2) σ.
Proof.
  intros Hperm Hh Hl. rewrite !New_settings. f_equal.
  assert (headers ss1 ≡ₚ headers ss2) as Hhp.
  { unfold headers. rewrite Hperm. reflexivity. }
  assert (loggers ss1 ≡ₚ loggers ss2) as Hlp.
  { unfold loggers. rewrite Hperm. reflexivity. }
  rewrite (last_Permutation_short _ _ Hhp Hh), (last_Permutation_short _ _ Hlp Hl).
  reflexivity.
Qed.

Lemma foldl_call_setter ss c :
  foldl call_setter c ss = range_opts (WithSetting <$> ss) c.
Proof.
  revert c. induction ss as [|s ss IH]; intros c; [reflexivity|].
  simpl foldl. rewrite IH, fmap_cons. destruct s; reflexivity.
Qed.

(** X4: the setter example and the functional-options example build the
    same client.  A chain of [SetHeader] and [SetLogger] calls on the
    client of the setter package's New gives what the functional-options
    New gives with the [WithHeader] and [WithLogger] options of the same
    values in the same order. *)
Theorem setter_chain_is_options b ss σ :
  (c ← SetterPattern.New b; mret (foldl call_setter c ss)) σ =
  New b (WithSetting <$> ss) σ.
Proof.
  rewrite New_returns. unfold SetterPattern.New, mbind, M_bind.
  rewrite new_http_Client_returns. unfold mret, M_ret.
  rewrite foldl_call_setter. reflexivity.
Qed.

End Settings.

(** ** The store across calls *)

Section StoreFacts.
Context {V : Type}.
Implicit Types (b : string) (σ : store) (c : Client V) (o : Option V)
  (opts : list (Option V)) (h : map_string_string) (l : ILogger V).

Lemma fresh_addr_after_allocation σ :
  fresh_addr (<[fresh_addr σ := http_Client_zero]> σ) ≠ fresh_addr σ.
Proof.
  intros Heq.
  pose proof (fresh_addr_unused (<[fresh_addr σ := http_Client_zero]> σ)) as Hnone.
  rewrite Heq, new_http_Client_allocated in Hnone. discriminate.
Qed.

(** X6: two calls of New one after the other, with factory-made options,
    give clients with different base clients, and after the second call
    both base clients are allocated: no two clients share one. *)
Theorem New_twice_distinct_base_clients b1 b2 opts1 opts2 σ :
  Forall factory_made opts1 → Forall factory_made opts2 →
  ∃ c1 c2 a1 a2 σ1 σ2,
    New b1 opts1 σ = Returned c1 σ1 ∧ New b2 opts2 σ1 = Returned c2 σ2 ∧
    baseClient c1 = Some a1 ∧ baseClient c2 = Some a2 ∧ a1 ≠ a2 ∧
    σ2 !! a1 = Some http_Client_zero ∧ σ2 !! a2 = Some http_Client_zero.
Proof.
  intros Hopts1 Hopts2. rewrite New_returns.
  set (σ1 := <[fresh_addr σ := http_Client_zero]> σ).
  destruct (range_opts_factory_made opts1 (default_target b1 (fresh_addr σ)) Hopts1)
    as [_ Hbc1].
  destruct (range_opts_factory_made opts2 (default_target b2 (fresh_addr σ1)) Hopts2)
    as [_ Hbc2].
  eexists _, _, (fresh_addr σ), (fresh_addr σ1), _, _.
  split; [reflexivity|]. split; [apply New_returns|].
  split; [exact Hbc1|]. split; [exact Hbc2|].
  split; [intros Heq; symmetry in Heq; revert Heq; apply fresh_addr_after_allocation|].
  split; [|apply new_http_Client_allocated].
  apply new_http_Client_frame, new_http_Client_allocated.
Qed.

(** X7: every constructor of the other four packages allocates one zero
    [http.Client] at an unused address, makes it the base client of the
    client it returns, and leaves the rest of the store alone; the
    config-struct constructor does so for every config that is not nil. *)
Theorem constructors_allocate_base_client b h l (config : ConfigStruct.Config V) :
  allocates_base_client (Traditional.New b h l) ∧
  allocates_base_client (@MultipleConstructors.New V b) ∧
  allocates_base_client (@MultipleConstructors.NewWithBaseURLAndHeaders V b h) ∧
  allocates_base_client (MultipleConstructors.NewWithBaseURLHeadersAndLogger b h l) ∧
  allocates_base_client (ConfigStruct.NewWithConfig (Some config)) ∧
  allocates_base_client (@SetterPattern.New V b).
Proof.
  repeat split; intros σ;
    unfold Traditional.New, MultipleConstructors.New,
      MultipleConstructors.NewWithBaseURLAndHeaders,
      MultipleConstructors.NewWithBaseURLHeadersAndLogger,
      ConfigStruct.NewWithConfig, SetterPattern.New, mbind, M_bind;
    rewrite new_http_Client_returns;
    eexists _, (fresh_addr σ);
    (split; [reflexivity|]); (split; [apply fresh_addr_unused | reflexivity]).
Qed.

(** X8: the config-struct constructor panics on a nil config, in every
    store, and on a config that is not nil it is the traditional
    constructor applied to the three fields of the config. *)
Theorem NewWithConfig_nil_or_fields σ :
  @ConfigStruct.NewWithConfig V None σ = Panicked ∧
  ∀ config : ConfigStruct.Config V,
    ConfigStruct.NewWithConfig (Some config) σ =
      Traditional.New (ConfigStruct.BaseURL config) (ConfigStruct.Header config)
        (ConfigStruct.Logger config) σ.
Proof.
  split.
  - unfold ConfigStruct.NewWithConfig, nil_dereference. reflexivity.
  - intros config. rewrite NewWithConfig_returns, Traditional_New_returns.
    reflexivity.
Qed.

(** X9: a nil header is kept as it is.  The constructors that take a
    header, the setter and the option store a nil map in the client, while
    the constructors that take no header start from the empty map, which
    is not nil. *)
Theorem nil_header_is_kept b l c σ :
  (∃ c' σ', Traditional.New b None l σ = Returned c' σ' ∧ header c' = None) ∧
  (∃ c' σ', @MultipleConstructors.NewWithBaseURLAndHeaders V b None σ = Returned c' σ' ∧
     header c' = None) ∧
  (∃ c' σ', ConfigStruct.NewWithConfig
     (Some {| ConfigStruct.BaseURL := b; ConfigStruct.Header := None;
              ConfigStruct.Logger := l |}) σ = Returned c' σ' ∧ header c' = None) ∧
  header (SetterPattern.SetHeader c None) = None ∧
  header (WithHeader None c) = None ∧
  (∃ c' σ', @New V b [] σ = Returned c' σ' ∧ header c' = Some ∅ ∧ header c' ≠ None) ∧
  (∃ c' σ', @MultipleConstructors.New V b σ = Returned c' σ' ∧ header c' = Some ∅) ∧
  (∃ c' σ', @SetterPattern.New V b σ = Returned c' σ' ∧ header c' = Some ∅).
Proof.
  rewrite Traditional_New_returns, NewWithConfig_returns, New_returns.
  unfold MultipleConstructors.NewWithBaseURLAndHeaders, MultipleConstructors.New,
    SetterPattern.New, mbind, M_bind.
  rewrite new_http_Client_returns.
  split; [eexists _, _; split; reflexivity|].
  split; [eexists _, _; split; reflexivity|].
  split; [eexists _, _; split; reflexivity|].
  split; [reflexivity|]. split; [reflexivity|].
  split; [eexists _, _; split; [reflexivity|]; split; [reflexivity|discriminate]|].
  split; eexists _, _; split; reflexivity.
Qed.

(** X10: what holds of the target New starts from, and every option of
    the sequence keeps, holds of the client New returns. *)
Theorem New_invariant (P : Client V → Prop) b opts σ :
  P (default_target b (fresh_addr σ)) →
  Forall (λ o, ∀ c, P c → P (o c)) opts →
  ∃ c σ', New b opts σ = Returned c σ' ∧ P c.
Proof.
  intros Hinit Hopts. rewrite New_returns. eexists _, _. split; [reflexivity|].
  revert Hinit. generalize (default_target (V:=V) b (fresh_addr σ)).
  induction Hopts as [|o opts Ho _ IH]; intros c Hc; simpl.
  - exact Hc.
  - apply IH, Ho, Hc.
Qed.

(** X11: two neighbours in the option sequence that commute as changes
    to a client can be swapped, wherever they stand in the sequence. *)
Theorem New_swap_commuting b (pre post : list (Option V)) o1 o2 σ :
  (∀ c, o1 (o2 c) = o2 (o1 c)) →
  New b (pre ++ o1 :: o2 :: post) σ = New b (pre ++ o2 :: o1 :: post) σ.
Proof.
  intros Hcomm. rewrite !New_returns. f_equal.
  rewrite !range_opts_app. simpl. rewrite Hcomm. reflexivity.
Qed.

(** X12: in the multiple-constructors package each narrower constructor
    is the next wider one with the default for the argument it leaves
    out, the empty map for the header and nil for the logger, and the
    widest is the traditional constructor. *)
Theorem multiple_constructors_nest b h l σ :
  @MultipleConstructors.New V b σ =
    MultipleConstructors.NewWithBaseURLAndHeaders b empty_map σ ∧
  @MultipleConstructors.NewWithBaseURLAndHeaders V b h σ =
    MultipleConstructors.NewWithBaseURLHeadersAndLogger b h None σ ∧
  MultipleConstructors.NewWithBaseURLHeadersAndLogger b h l σ =
    Traditional.New b h l σ.
Proof.
  unfold MultipleConstructors.New, MultipleConstructors.NewWithBaseURLAndHeaders,
    MultipleConstructors.NewWithBaseURLHeadersAndLogger, Traditional.New.
  split; [reflexivity|]. split; reflexivity.
Qed.

(** X13: the two setters write different fields.  Each changes its own
    field only, they commute, the later of two calls of the same setter
    wins, and calling a setter twice with one value is calling it once. *)
Theorem setters_compose c h h' l l' :
  SetterPattern.SetHeader c h = assign (assign_header h) c ∧
  SetterPattern.SetLogger c l = assign (assign_logger l) c ∧
  SetterPattern.SetLogger (SetterPattern.SetHeader c h) l =
    SetterPattern.SetHeader (SetterPattern.SetLogger c l) h ∧
  SetterPattern.SetHeader (SetterPattern.SetHeader c h) h' =
    SetterPattern.SetHeader c h' ∧
  SetterPattern.SetLogger (SetterPattern.SetLogger c l) l' =
    SetterPattern.SetLogger c l'.
Proof.
  unfold SetterPattern.SetHeader, SetterPattern.SetLogger, assign. simpl.
  repeat split.
Qed.

End StoreFacts.

(** Instances of the statements above that have hypotheses. *)

Lemma New_options_twice_witness :
  Forall factory_made [@WithHeader string None; WithLogger (Some "stderr")] ∧
  New example_url
    ([@WithHeader string None; WithLogger (Some "stderr")] ++
     [WithHeader None; WithLogger (Some "stderr")]) ∅ =
  New example_url [WithHeader None; WithLogger (Some "stderr")] ∅.
Proof.
  assert (Forall factory_made [@WithHeader string None; WithLogger (Some "stderr")])
    as Hmade by (repeat constructor).
  split; [exact Hmade|]. apply New_options_twice, Hmade.
Defined.

Lemma New_settings_any_order_witness :
  [@logger_setting string (Some "stderr"); header_setting None] ≡ₚ
    [header_setting None; logger_setting (Some "stderr")] ∧
  length (headers [@logger_setting string (Some "stderr"); header_setting None]) ≤ 1 ∧
  length (loggers [@logger_setting string (Some "stderr"); header_setting None]) ≤ 1 ∧
  New example_url
    (WithSetting <$> [@logger_setting string (Some "stderr"); header_setting None]) ∅ =
  New example_url
    (WithSetting <$> [header_setting None; logger_setting (Some "stderr")]) ∅.
Proof.
  assert ([@logger_setting string (Some "stderr"); header_setting None] ≡ₚ
          [header_setting None; logger_setting (Some "stderr")]) as Hperm.
  { apply Permutation_swap. }
  split; [exact Hperm|]. split; [simpl; lia|]. split; [simpl; lia|].
  apply New_settings_any_order; [exact Hperm | simpl; lia | simpl; lia].
Defined.

Lemma New_twice_distinct_base_clients_witness :
  Forall factory_made [@WithHeader string None] ∧
  Forall factory_made [@WithLogger string None] ∧
  ∃ c1 c2 a1 a2 σ1 σ2,
    New example_url [@WithHeader string None] ∅ = Returned c1 σ1 ∧
    New "" [@WithLogger string None] σ1 = Returned c2 σ2 ∧
    baseClient c1 = Some a1 ∧ baseClient c2 = Some a2 ∧ a1 ≠ a2 ∧
    σ2 !! a1 = Some http_Client_zero ∧ σ2 !! a2 = Some http_Client_zero.
Proof.
  assert (Forall factory_made [@WithHeader string None]) as H1 by (repeat constructor).
  assert (Forall factory_made [@WithLogger string None]) as H2 by (repeat constructor).
  split; [exact H1|]. split; [exact H2|].
  apply New_twice_distinct_base_clients; assumption.
Defined.

(** The identifier survives options that do not write it. *)
Lemma New_invariant_witness :
  baseURL (default_target (V:=string) example_url (fresh_addr ∅)) = example_url ∧
  Forall (λ o : Option string, ∀ c, baseURL c = example_url → baseURL (o c) = example_url)
    [WithHeader None; WithLogger (Some "stderr")] ∧
  ∃ c σ', New example_url [@WithHeader string None; WithLogger (Some "stderr")] ∅
          = Returned c σ' ∧ baseURL c = example_url.
Proof.
  assert (Forall (λ o : Option string,
            ∀ c, baseURL c = example_url → baseURL (o c) = example_url)
            [WithHeader None; WithLogger (Some "stderr")]) as Hkeep.
  { repeat constructor; intros c Hc; exact Hc. }
  split; [reflexivity|]. split; [exact Hkeep|].
  apply (New_invariant (λ c, baseURL c = example_url)); [reflexivity | exact Hkeep].
Defined.

Lemma New_swap_commuting_witness :
  (∀ c : Client string,
     WithHeader None (WithLogger (Some "stderr") c) =
     WithLogger (Some "stderr") (WithHeader None c)) ∧
  New example_url
    ([WithHeader (Some ∅)] ++ WithHeader None :: WithLogger (Some "stderr") :: []) ∅ =
  New example_url
    ([WithHeader (Some ∅)] ++ WithLogger (Some "stderr") :: @WithHeader string None :: []) ∅.
Proof.
  assert (∀ c : Client string,
     WithHeader None (WithLogger (Some "stderr") c) =
     WithLogger (Some "stderr") (WithHeader None c)) as Hcomm.
  { intros c. reflexivity. }
  split; [exact Hcomm|]. apply New_swap_commuting, Hcomm.
Defined.


(** ** Options as func values *)

Section OptionFuncsFacts.
Context {V : Type}.
Implicit Types (b : string) (σ : store) (c : Client V)
  (o : OptionFuncs.Option V) (opts pre post : list (OptionFuncs.Option V)).

Lemma OptionFuncs_New_unfold b opts σ :
  OptionFuncs.New b opts σ =
    OptionFuncs.range_opts opts (default_target b (fresh_addr σ))
      (<[fresh_addr σ := http_Client_zero]> σ).
Proof.
  unfold OptionFuncs.New, mbind, M_bind. rewrite new_http_Client_returns.
  reflexivity.
Qed.


(** On options that are changes to the client the two embeddings of the
    loop, and of New, agree. *)
Lemma OptionFuncs_range_opts_of_change (changes : list (Option V)) c σ :
  OptionFuncs.range_opts (OptionFuncs.of_change <$> changes) c σ =
    Returned (range_opts changes c) σ.
Proof.
  revert c. induction changes as [|o changes IH]; intros c; [reflexivity|].
  rewrite fmap_cons. simpl. unfold mbind, M_bind. simpl. apply IH.
Qed.

Lemma OptionFuncs_New_of_change b (changes : list (Option V)) σ :
  OptionFuncs.New b (OptionFuncs.of_change <$> changes) σ = New b changes σ.
Proof.
  rewrite OptionFuncs_New_unfold, OptionFuncs_range_opts_of_change, New_returns.
  reflexivity.
Qed.


Lemma of_change_store_preserving (change : Option V) :
  store_preserving (OptionFuncs.of_change change).
Proof. intros c σ c' σ' Hcall. simpl in Hcall. inversion Hcall. reflexivity. Qed.

Lemma OptionFuncs_range_opts_store opts c σ c' σ' :
  Forall store_preserving opts →
  OptionFuncs.range_opts opts c σ = Returned c' σ' → σ' = σ.
Proof.
  intros Hopts. revert c.
  induction Hopts as [|o opts Ho _ IH]; intros c Hrun; simpl in Hrun.
  - inversion Hrun. reflexivity.
  - unfold mbind, M_bind in Hrun.
    destruct (OptionFuncs.call o c σ) as [c1 σ1|] eqn:Hcall; [|discriminate].
    apply Ho in Hcall as ->. apply (IH c1), Hrun.
Qed.

(** X5: when no option of the sequence touches the store, a call of New
    that returns has allocated exactly one [http.Client]: everything
    that was in the store is still there, unchanged, and the store has
    one entry more. *)
Theorem New_store_grows_by_one b opts σ c σ' :
  Forall store_preserving opts →
  OptionFuncs.New b opts σ = Returned c σ' →
  σ ⊆ σ' ∧ size σ' = S (size σ).
Proof.
  intros Hopts Hnew. rewrite OptionFuncs_New_unfold in Hnew.
  apply (OptionFuncs_range_opts_store opts _ _ _ _ Hopts) in Hnew as ->.
  pose proof (fresh_addr_unused σ) as Hnone. split.
  - apply insert_subseteq, Hnone.
  - apply map_size_insert_None, Hnone.
Qed.

End OptionFuncsFacts.


(** An option that panics by itself does the same as a nil one. *)
Example New_stops_at_panicking_option :
  OptionFuncs.New example_url
    [@OptionFuncs.WithHeader string None; Some (λ _, nil_dereference);
     OptionFuncs.WithLogger (Some "stderr")] ∅ = Panicked.
Proof. rewrite OptionFuncs_New_unfold. reflexivity. Qed.

Lemma New_store_grows_by_one_witness :
  Forall store_preserving
    [@OptionFuncs.WithHeader string None; OptionFuncs.WithLogger (Some "stderr")] ∧
  OptionFuncs.New example_url
    [@OptionFuncs.WithHeader string None; OptionFuncs.WithLogger (Some "stderr")] ∅ =
    Returned (mkClient example_url None (Some "stderr") (Some (fresh_addr ∅)))
             (<[fresh_addr ∅ := http_Client_zero]> ∅) ∧
  (∅ : store) ⊆ <[fresh_addr ∅ := http_Client_zero]> ∅ ∧
  size (<[fresh_addr ∅ := http_Client_zero]> (∅ : store)) = S (size (∅ : store)).
Proof.
  assert (Forall store_preserving
    [@OptionFuncs.WithHeader string None; OptionFuncs.WithLogger (Some "stderr")])
    as Hopts.
  { repeat constructor; apply of_change_store_preserving. }
  assert (OptionFuncs.New example_url
    [@OptionFuncs.WithHeader string None; OptionFuncs.WithLogger (Some "stderr")] ∅ =
    Returned (mkClient example_url None (Some "stderr") (Some (fresh_addr ∅)))
             (<[fresh_addr ∅ := http_Client_zero]> ∅)) as Hnew.
  { rewrite OptionFuncs_New_unfold. reflexivity. }
  split; [exact Hopts|]. split; [exact Hnew|].
  exact (New_store_grows_by_one _ _ _ _ _ Hopts Hnew).
Defined.

